(** * henka / tools/gen_texture.py : the white-noise texture generator

    A shallow embedding of [tools/gen_texture.py] and of the parts of its
    libraries (NumPy, Pillow, argparse) that the script calls, followed by
    the properties of the generated texture and of a run of [main].

    Randomness is an explicit input: a function [nat -> Z] gives, for
    every [k], the value behind the [k]-th integer a fresh NumPy generator
    hands out.  How NumPy obtains that integer from the words of its bit
    generator is not modelled, and neither are limits of memory or of
    array size. *)

From Stdlib Require Import ZArith Lia Ascii String.
From stdpp Require Import base gmap list strings pretty.

(** ** Python results: a value or a raised exception *)

Inductive exn :=
  | ValueError
  | KeyError
  | OSError
  | SystemExit (code : Z).

Inductive result (A : Type) :=
  | Ok (a : A)
  | Raise (e : exn).
Arguments Ok {A} a.
Arguments Raise {A} e.

#[global] Instance result_ret : MRet result := @Ok.
#[global] Instance result_bind : MBind result := fun A B f m =>
  match m with
  | Ok a => f a
  | Raise e => Raise e
  end.

(** ** NumPy *)

Module np.

(** An n-dimensional array: its shape and its elements in C (row-major)
    order.  The element type is carried by the operations: [integers]
    yields int64 elements, [astype_uint8] yields uint8 elements. *)
Record ndarray := { shape : list nat; flat : list Z }.

Definition product (dims : list nat) : nat := foldr Nat.mul 1 dims.

(** Two's-complement wrap-around of int64 arithmetic. *)
Definition INT64_MIN : Z := Eval cbv in (- 2 ^ 63)%Z.
Definition INT64_MAX : Z := Eval cbv in (2 ^ 63 - 1)%Z.
Definition INT64_MODULUS : Z := Eval cbv in (2 ^ 64)%Z.

Definition wrap_int64 (z : Z) : Z :=
  ((z - INT64_MIN) `mod` INT64_MODULUS + INT64_MIN)%Z.

(** Conversion of an integer to uint8 keeps the low eight bits. *)
Definition wrap_uint8 (z : Z) : Z := (z `mod` 256)%Z.

(** [a[i0, i1, ...]]: position of a multi-index in the flat buffer,
    with the bounds check of every axis. *)
Fixpoint ravel (dims : list nat) (idx : list nat) (acc : nat) : option nat :=
  match dims, idx with
  | [], [] => Some acc
  | d :: dims', i :: idx' =>
      if decide (i < d) then ravel dims' idx' (acc * d + i) else None
  | _, _ => None
  end.

Definition getitem (a : ndarray) (idx : list nat) : option Z :=
  k ← ravel (shape a) idx 0; flat a !! k.

(** A [numpy.random.Generator]: the values behind the integers it hands
    out, one per integer drawn, and how many integers have been drawn. *)
Record Generator := { bit_stream : nat -> Z; consumed : nat }.

(** [np.random.default_rng()]: a fresh generator; [entropy] stands for
    what the operating system's seed determines. *)
Definition default_rng (entropy : nat -> Z) : Generator :=
  {| bit_stream := entropy; consumed := 0 |}.

(** The integer of the half-open interval [low, high) that the value
    [raw] stands for. *)
Definition bounded (low high raw : Z) : Z := (low + raw `mod` (high - low))%Z.

(** [rng.integers(low=low, high=high, size=size)]: an int64 array of the
    given shape, every element drawn from the half-open interval
    [low, high), the elements filled in C order with the generator's next
    integers.  ValueError when the interval is empty or not within int64,
    or a dimension is negative.  Shapes too large for an array or for
    memory are outside the model. *)
Definition integers (low high : Z) (size : list Z) (rng : Generator)
  : result (ndarray * Generator) :=
  if decide (high <= low)%Z then Raise ValueError
  else if decide (low < INT64_MIN \/ INT64_MAX + 1 < high)%Z then Raise ValueError
  else if decide (Exists (fun d => d < 0)%Z size) then Raise ValueError
  else
    let dims := Z.to_nat <$> size in
    let n := product dims in
    Ok ({| shape := dims;
           flat := (fun k => bounded low high (bit_stream rng k))
                     <$> seq (consumed rng) n |},
        {| bit_stream := bit_stream rng; consumed := consumed rng + n |}).

(** The next [inner] elements of each buffer in turn, [outer] times. *)
Fixpoint interleave (outer inner : nat) (flats : list (list Z)) : list Z :=
  match outer with
  | 0 => []
  | S outer' =>
      mjoin (take inner <$> flats)
        ++ interleave outer' inner (drop inner <$> flats)
  end.

(** [np.stack(arrays, axis=axis)]: joins arrays of one common shape along
    a new axis.  With [outer] the number of index prefixes before the new
    axis and [inner] the number of elements under each, the result lists,
    for every prefix, the [inner]-block of each array in turn.
    ValueError for an empty list, differing shapes or an axis out of
    range. *)
Definition stack (arrays : list ndarray) (axis : nat) : result ndarray :=
  match arrays with
  | [] => Raise ValueError
  | a :: _ =>
      if decide (Forall (fun b => shape b = shape a) arrays) then
        if decide (axis <= length (shape a)) then
          Ok {| shape := take axis (shape a)
                           ++ length arrays :: drop axis (shape a);
                flat := interleave (product (take axis (shape a)))
                                   (product (drop axis (shape a)))
                                   (flat <$> arrays) |}
        else Raise ValueError
      else Raise ValueError
  end.

(** [a + b] on int64 arrays of one shape: element-wise, wrapping.
    Operands of different shapes are not broadcast in this model; the
    script only adds arrays of shape (height, width, 3). *)
Definition add (a b : ndarray) : result ndarray :=
  if decide (shape a = shape b) then
    Ok {| shape := shape a;
          flat := zip_with (fun x y => wrap_int64 (x + y)) (flat a) (flat b) |}
  else Raise ValueError.

(** [np.clip(a, a_min, a_max)] is [minimum(a_max, maximum(a, a_min))]. *)
Definition clip (a : ndarray) (a_min a_max : Z) : ndarray :=
  {| shape := shape a;
     flat := (fun x => Z.min a_max (Z.max x a_min)) <$> flat a |}.

(** [a.astype(np.uint8)] *)
Definition astype_uint8 (a : ndarray) : ndarray :=
  {| shape := shape a; flat := wrap_uint8 <$> flat a |}.

End np.

(** ** The world a run acts on *)

(** An encoded image file, described by its container format and the
    image it holds. *)
Record File := { file_format : string; file_image_mode : string;
                 file_image_size : nat * nat; file_samples : list Z }.

(** [files] maps a path to the complete image file it holds; a path left
    with the fragment of an interrupted write holds no image and is not in
    the map.  [can_open fp] tells whether [fp] can be opened for writing
    and the whole file written to it.  Where it cannot,
    [fails_after_open fp] tells whether the failure is a write error that
    comes after [open(fp, "w+b")] has created or truncated the file (a full
    disk, say) rather than an error of [open] itself (a missing directory,
    an invalid name, permissions).  [stdout] collects what is printed, and
    [help_message] is the help text argparse formats for the parser of
    [main]: it depends on the program name and the Python version.
    Standard error is not part of the world. *)
Record World := { files : gmap string File;
                  can_open : string -> bool;
                  fails_after_open : string -> bool;
                  stdout : list string;
                  help_message : string }.

Definition with_files (w : World) (fs : gmap string File) : World :=
  {| files := fs; can_open := can_open w;
     fails_after_open := fails_after_open w;
     stdout := stdout w; help_message := help_message w |}.

Definition with_stdout (w : World) (out : list string) : World :=
  {| files := files w; can_open := can_open w;
     fails_after_open := fails_after_open w;
     stdout := out; help_message := help_message w |}.

(** An action on the world that returns a value or raises. *)
Definition IO (A : Type) : Type := World -> result A * World.

#[global] Instance IO_ret : MRet IO := fun A a w => (Ok a, w).
#[global] Instance IO_bind : MBind IO := fun A B f m w =>
  match m w with
  | (Ok a, w') => f a w'
  | (Raise e, w') => (Raise e, w')
  end.

Definition lift {A} (r : result A) : IO A := fun w => (r, w).

Definition print (line : string) : IO unit := fun w =>
  (Ok (), with_stdout w (stdout w ++ [line])).

(** Opening [fp] with mode "w+b" and writing [content] to it.  When both
    succeed the file replaces what [fp] held.  When [open] raises OSError
    nothing is touched.  When a write raises OSError after [open] has
    created or truncated the file, whatever [fp] held before is lost and
    no image is left there. *)
Definition write_file (fp : string) (content : File) : IO unit := fun w =>
  if can_open w fp then
    (Ok (), with_files w (<[fp := content]> (files w)))
  else if fails_after_open w fp then
    (Raise OSError, with_files w (delete fp (files w)))
  else (Raise OSError, w).

(** ** Strings: case conversion and [os.path.splitext] *)

Definition ascii_upper (c : ascii) : ascii :=
  let n := nat_of_ascii c in
  if decide (97 <= n <= 122) then ascii_of_nat (n - 32) else c.

Definition ascii_lower (c : ascii) : ascii :=
  let n := nat_of_ascii c in
  if decide (65 <= n <= 90) then ascii_of_nat (n + 32) else c.

Fixpoint upper (s : string) : string :=
  match s with
  | EmptyString => EmptyString
  | String c s' => String (ascii_upper c) (upper s')
  end.

Fixpoint lower (s : string) : string :=
  match s with
  | EmptyString => EmptyString
  | String c s' => String (ascii_lower c) (lower s')
  end.

(** The part of [s] after its last [c], when [c] occurs in [s]. *)
Fixpoint after_last (c : ascii) (s : string) : option string :=
  match s with
  | EmptyString => None
  | String x s' =>
      match after_last c s' with
      | Some t => Some t
      | None => if decide (x = c) then Some s' else None
      end
  end.

Fixpoint skip_dots (s : string) : string :=
  match s with
  | String "." s' => skip_dots s'
  | _ => s
  end.

(** The extension [os.path.splitext(p)[1]]: from the last dot of the last
    path component, leading dots of the component not counting. *)
Definition splitext_ext (p : string) : string :=
  let name := skip_dots (default p (after_last "/" p)) in
  match after_last "." name with
  | Some e => String "." e
  | None => EmptyString
  end.

(** ** Pillow *)

Module Image.

(** An image: its mode, its size as (width, height) and its samples,
    row by row, pixel by pixel, band by band. *)
Record t := { mode : string; im_size : nat * nat; tobytes : list Z }.

(** [Image.fromarray(obj, mode=mode)] for a three-band array of shape
    (height, width, 3); other modes and shapes are not modelled and are
    reported as ValueError. *)
Definition fromarray (obj : np.ndarray) (mode : string) : result t :=
  match np.shape obj with
  | [h; w; 3] =>
      if decide (mode = "RGB") then
        Ok {| mode := mode; im_size := (w, h); tobytes := np.flat obj |}
      else Raise ValueError
  | _ => Raise ValueError
  end.

(** Some of the registered file extensions and savers. *)
Definition EXTENSION : gmap string string :=
  list_to_map [(".png", "PNG"); (".apng", "PNG"); (".jpg", "JPEG");
               (".jpeg", "JPEG"); (".bmp", "BMP"); (".gif", "GIF");
               (".tif", "TIFF"); (".tiff", "TIFF"); (".webp", "WEBP")].

Definition SAVE : list string :=
  ["PNG"; "JPEG"; "BMP"; "GIF"; "TIFF"; "WEBP"].

(** The format [save] writes: the one asked for, else the one registered
    for the extension of the file name (ValueError when there is none);
    KeyError when no saver is registered for it. *)
Definition save_format (fp : string) (format : option string) : result string :=
  fmt ← match format with
        | Some f => Ok f
        | None =>
            match EXTENSION !! lower (splitext_ext fp) with
            | Some f => Ok f
            | None => Raise ValueError
            end
        end;
  if decide (upper fmt ∈ SAVE) then Ok (upper fmt) else Raise KeyError.

(** [self.save(fp, format=format)]: the format is settled first, then the
    file is opened for writing and the encoded image written to it
    (OSError when either fails). *)
Definition save (self : t) (fp : string) (format : option string) : IO unit :=
  fmt ← lift (save_format fp format);
  write_file fp {| file_format := fmt;
                   file_image_mode := mode self;
                   file_image_size := im_size self;
                   file_samples := tobytes self |}.

End Image.

(** ** tools/gen_texture.py *)

Definition IMAGE_WIDTH : Z := 128.
Definition IMAGE_HEIGHT : Z := 128.
Definition IMAGE_MODE : string := "RGB".

Definition CHANNEL_NOISE : Z := 24.

(** Line 36: [base_noise = rng.integers(low=0, high=256, size=(height, width))] *)
Definition base_noise (width height : Z) (rng : np.Generator) :=
  np.integers 0 256 [height; width] rng.

(** Line 43: [channel_noise = rng.integers(low=-CHANNEL_NOISE,
    high=CHANNEL_NOISE, size=(height, width, 3))] *)
Definition channel_noise (width height : Z) (rng : np.Generator) :=
  np.integers (- CHANNEL_NOISE) CHANNEL_NOISE [height; width; 3%Z] rng.

(** Lines 33-44: the pixel buffer handed to [Image.fromarray]. *)
Definition img_array (width height : Z) (entropy : nat -> Z) : result np.ndarray :=
  let rng := np.default_rng entropy in
  '(base, rng) ← base_noise width height rng;
  stacked ← np.stack [base; base; base] 2;
  '(noise, rng) ← channel_noise width height rng;
  sum ← np.add stacked noise;
  Ok (np.astype_uint8 (np.clip sum 0 255)).

Definition generate_white_noise (width height : Z) (entropy : nat -> Z)
  : result Image.t :=
  arr ← img_array width height entropy;
  Image.fromarray arr IMAGE_MODE.


(** The command line after the program name, as argparse classifies it:
    positional arguments, the help option ([-h], [--help]) and any other
    option-like argument. *)
Inductive arg :=
  | Positional (s : string)
  | HelpOption
  | UnknownOption (s : string).

#[global] Instance arg_eq_dec : EqDecision arg.
Proof. solve_decision. Defined.

Record Namespace := { output : string }.

Definition positionals (argv : list arg) : list string :=
  omap (fun a => match a with Positional s => Some s | _ => None end) argv.

Definition unknown_options (argv : list arg) : list string :=
  omap (fun a => match a with UnknownOption s => Some s | _ => None end) argv.

(** Lines 50-58: the parser with the single positional argument [output],
    and the outcome of [parser.parse_args()].  The help option exits with
    status 0; a missing or surplus positional or an unknown option is an
    error, exit status 2. *)
Definition parse_args (argv : list arg) : result Namespace :=
  if decide (HelpOption ∈ argv) then Raise (SystemExit 0)
  else
    match positionals argv, unknown_options argv with
    | [o], [] => Ok {| output := o |}
    | _, _ => Raise (SystemExit 2)
    end.

(** What [parser.parse_args()] does to the world on its way: with the
    help option it prints the help message to standard output before it
    exits.  (The usage message of an error goes to standard error.) *)
Definition parse_args_io (argv : list arg) : IO Namespace := fun w =>
  if decide (HelpOption ∈ argv) then
    (parse_args argv, with_stdout w (stdout w ++ [help_message w]))
  else (parse_args argv, w).

(** Lines 49-66 *)
Definition main (argv : list arg) (entropy : nat -> Z) : IO unit :=
  args ← parse_args_io argv;
  _ ← print ("Generating " +:+ pretty IMAGE_WIDTH +:+ "x" +:+ pretty IMAGE_HEIGHT
             +:+ " white noise image...");
  image ← lift (generate_white_noise IMAGE_WIDTH IMAGE_HEIGHT entropy);
  _ ← Image.save image (output args) (Some "PNG");
  print ("Image saved to: " +:+ output args).

(** ** Which draw feeds which element *)

(** [base_noise] takes the first [height * width] draws of the fresh
    generator, in C order; [channel_noise] takes the next
    [height * width * 3]. *)
Definition base_index (width i j : nat) : nat := i * width + j.

Definition channel_index (width height i j c : nat) : nat :=
  height * width + (i * width + j) * 3 + c.

Definition base_draw (entropy : nat -> Z) (width i j : nat) : Z :=
  np.bounded 0 256 (entropy (base_index width i j)).

Definition channel_draw (entropy : nat -> Z) (width height i j c : nat) : Z :=
  np.bounded (- CHANNEL_NOISE) CHANNEL_NOISE
             (entropy (channel_index width height i j c)).

(** ** The algorithm as the specification words it *)

Module Spec.

(** (b) the base field replicated across the three channels *)
Definition replicate (field : nat -> nat -> Z) : nat -> nat -> nat -> Z :=
  fun i j _ => field i j.

(** (c) every channel of every pixel perturbed by its own noise value *)
Definition perturb (img noise : nat -> nat -> nat -> Z) : nat -> nat -> nat -> Z :=
  fun i j c => (img i j c + noise i j c)%Z.

(** (d) clamping to the valid range [0, 255] *)
Definition clamp (v : Z) : Z :=
  if (v <? 0)%Z then 0%Z else if (255 <? v)%Z then 255%Z else v.

(** (a)-(d): the value of channel [c] of the pixel in row [i], column [j],
    from the base field and the secondary noise. *)
Definition white_noise (base : nat -> nat -> Z) (noise : nat -> nat -> nat -> Z)
  : nat -> nat -> nat -> Z :=
  fun i j c => clamp (perturb (replicate base) noise i j c).

End Spec.

(** ** Reading one channel value, and the draws it is computed from *)

(** The value of channel [c] of the pixel in row [i], column [j] of the
    buffer generated from [entropy]. *)
Definition channel_value (width height : nat) (entropy : nat -> Z)
    (i j c : nat) : option Z :=
  match img_array (Z.of_nat width) (Z.of_nat height) entropy with
  | Ok arr => np.getitem arr [i; j; c]
  | Raise _ => None
  end.

(** The draws used for that channel value: the base draw of its pixel
    and the secondary draw of the channel. *)
Definition draws_used (width height i j c : nat) : list nat :=
  [base_index width i j; channel_index width height i j c].

(** "Each channel value of each pixel does not depend on the draws used for
    any other pixel or channel": changing only draws that are used for
    another channel value leaves this one unchanged. *)
Definition independent_of_other_draws : Prop :=
  forall (width height i j c i' j' c' : nat) (e1 e2 : nat -> Z),
    i < height -> j < width -> c < 3 ->
    i' < height -> j' < width -> c' < 3 ->
    (i, j, c) <> (i', j', c') ->
    (forall n, n ∉ draws_used width height i' j' c' -> e1 n = e2 n) ->
    channel_value width height e1 i j c = channel_value width height e2 i j c.

(** ** Sample inputs *)

(** Entropy that is 0 everywhere, and entropy that differs from it in the
    first draw only, the base draw of pixel (0, 0). *)
Definition zero_entropy (k : nat) : Z := 0%Z.

Definition base_changed_entropy (k : nat) : Z :=
  match k with
  | 0 => 100%Z
  | _ => 0%Z
  end.

(** Entropy for a 1 x 1 image whose red and green channels get the extreme
    perturbations -24 and 23. *)
Definition extreme_entropy (k : nat) : Z :=
  match k with
  | 0 => 100%Z
  | 2 => 47%Z
  | _ => 0%Z
  end.

(** A world with no files in which every path can be opened and written. *)
Definition empty_world : World :=
  {| files := ∅; can_open := fun _ => true; fails_after_open := fun _ => false;
     stdout := []; help_message := "usage: gen_texture.py [-h] output" |}.

(** A world in which the output path already holds another file. *)
Definition stale_world : World :=
  {| files := {[ "noise.png" := {| file_format := "JPEG";
                                   file_image_mode := "L";
                                   file_image_size := (1, 1);
                                   file_samples := [0%Z] |} ]};
     can_open := fun _ => true;
     fails_after_open := fun _ => false;
     stdout := [];
     help_message := "usage: gen_texture.py [-h] output" |}.

(** The same files, but no path can be opened: [open] fails. *)
Definition closed_world : World :=
  {| files := files stale_world; can_open := fun _ => false;
     fails_after_open := fun _ => false;
     stdout := []; help_message := help_message stale_world |}.


(** The line [main] prints before generating. *)
Definition generating_line : string := "Generating 128x128 white noise image...".

(** ** Facts about the NumPy operations *)

Section numpy_facts.

Lemma bounded_range (low high raw : Z) :
  (low < high)%Z -> (low <= np.bounded low high raw < high)%Z.
Proof.
  intros Hlt. unfold np.bounded.
  pose proof (Z.mod_pos_bound raw (high - low)) as Hm. lia.
Qed.

Lemma wrap_int64_id (z : Z) :
  (np.INT64_MIN <= z <= np.INT64_MAX)%Z -> np.wrap_int64 z = z.
Proof.
  unfold np.wrap_int64, np.INT64_MIN, np.INT64_MAX, np.INT64_MODULUS.
  intros Hz. rewrite Z.mod_small; lia.
Qed.

Lemma wrap_uint8_id (z : Z) : (0 <= z <= 255)%Z -> np.wrap_uint8 z = z.
Proof. intros Hz. unfold np.wrap_uint8. apply Z.mod_small. lia. Qed.

(** Stacking one buffer three times along a new last axis repeats every
    element three times in place. *)
Lemma interleave_thrice (l : list Z) :
  np.interleave (length l) 1 [l; l; l] = l ≫= (fun x => [x; x; x]).
Proof.
  induction l as [|x l IH]; [reflexivity|].
  cbn [length np.interleave]. cbn [fmap list_fmap take drop mjoin list_join app].
  rewrite take_0, drop_0. cbn. by rewrite IH.
Qed.

Lemma lookup_thrice (l : list Z) (k c : nat) :
  c < 3 -> (l ≫= (fun x => [x; x; x])) !! (k * 3 + c) = l !! k.
Proof.
  revert k. induction l as [|x l IH]; intros k Hc.
  - by rewrite !lookup_nil.
  - destruct k as [|k].
    + cbn. destruct c as [|[|[|c]]]; cbn; try done; lia.
    + replace (S k * 3 + c) with (S (S (S (k * 3 + c)))) by lia.
      cbn. by apply IH.
Qed.

Lemma length_thrice (l : list Z) :
  length (l ≫= (fun x => [x; x; x])) = length l * 3.
Proof. induction l as [|x l IH]; cbn; [done|]. rewrite IH. lia. Qed.

(** What [integers] returns for sizes that are not negative. *)
Lemma integers_ok (low high : Z) (dims : list nat) (rng : np.Generator) :
  (low < high)%Z -> (np.INT64_MIN <= low)%Z -> (high <= np.INT64_MAX + 1)%Z ->
  np.integers low high (Z.of_nat <$> dims) rng =
    Ok ({| np.shape := dims;
           np.flat := (fun k => np.bounded low high (np.bit_stream rng k))
                        <$> seq (np.consumed rng) (np.product dims) |},
        {| np.bit_stream := np.bit_stream rng;
           np.consumed := np.consumed rng + np.product dims |}).
Proof.
  intros Hlt Hlo Hhi. unfold np.integers.
  rewrite decide_False by lia.
  rewrite decide_False by lia.
  rewrite decide_False.
  2:{ rewrite Exists_exists. intros (d & Hd & Hneg).
      apply list_elem_of_fmap in Hd as (n & -> & _). lia. }
  rewrite <- list_fmap_compose.
  replace (Z.to_nat ∘ Z.of_nat <$> dims) with dims; [done|].
  induction dims as [|d dims IH]; cbn; [done|].
  rewrite Nat2Z.id. by rewrite <- IH.
Qed.

Lemma integers_negative (low high : Z) (size : list Z) (rng : np.Generator) :
  Exists (fun d => d < 0)%Z size -> np.integers low high size rng = Raise ValueError.
Proof.
  intros Hneg. unfold np.integers.
  repeat case_decide; done.
Qed.

End numpy_facts.

(** ** The pixel buffer *)

Section pixel_buffer.

Variables (W H : nat) (entropy : nat -> Z).

Lemma img_array_eq :
  img_array (Z.of_nat W) (Z.of_nat H) entropy =
    Ok {| np.shape := [H; W; 3];
          np.flat :=
            np.wrap_uint8 <$>
              ((fun x => Z.min 255 (Z.max x 0)) <$>
                 zip_with (fun x y => np.wrap_int64 (x + y))
                   (((fun k => np.bounded 0 256 (entropy k)) <$> seq 0 (H * W))
                      ≫= (fun x => [x; x; x]))
                   ((fun k => np.bounded (-24) 24 (entropy k))
                      <$> seq (H * W) (H * W * 3))) |}.
Proof.
  unfold img_array, base_noise, channel_noise, CHANNEL_NOISE.
  change [Z.of_nat H; Z.of_nat W] with (Z.of_nat <$> [H; W]).
  change [Z.of_nat H; Z.of_nat W; 3%Z] with (Z.of_nat <$> [H; W; 3]).
  rewrite integers_ok by (unfold np.INT64_MIN, np.INT64_MAX; lia).
  cbn [mbind result_bind np.default_rng np.bit_stream np.consumed].
  assert (Hp2 : np.product [H; W] = H * W) by (cbn; lia).
  assert (Hp3 : np.product [H; W; 3] = H * W * 3) by (cbn; lia).
  rewrite Hp2.
  unfold np.stack. cbn [np.shape np.flat].
  rewrite decide_True by (repeat constructor).
  rewrite decide_True by (cbn; lia).
  cbn [take drop app length fmap list_fmap np.flat mbind result_bind].
  change (np.product []) with 1. rewrite Hp2.
  set (B := (fun k => np.bounded 0 256 (entropy k)) <$> seq 0 (H * W)).
  assert (HB : length B = H * W) by (unfold B; by rewrite length_fmap, length_seq).
  replace (np.interleave (H * W) 1 [B; B; B]) with (B ≫= (fun x => [x; x; x]))
    by (rewrite <- HB; symmetry; apply interleave_thrice).
  change [Z.of_nat H; Z.of_nat W; Z.of_nat 3] with (Z.of_nat <$> [H; W; 3]).
  rewrite integers_ok by (unfold np.INT64_MIN, np.INT64_MAX; lia).
  cbn [np.bit_stream np.consumed mbind result_bind].
  rewrite Hp3. unfold np.add. cbn [np.shape np.flat].
  rewrite decide_True by done.
  cbn [mbind result_bind]. unfold np.astype_uint8, np.clip.
  cbn [np.shape np.flat]. reflexivity.
Qed.

Lemma clip_is_clamp (x : Z) : Z.min 255 (Z.max x 0) = Spec.clamp x.
Proof.
  unfold Spec.clamp.
  destruct (Z.ltb_spec x 0); [lia|]. destruct (Z.ltb_spec 255 x); lia.
Qed.

Lemma clamp_range (x : Z) : (0 <= Spec.clamp x <= 255)%Z.
Proof.
  unfold Spec.clamp.
  destruct (Z.ltb_spec x 0); [lia|]. destruct (Z.ltb_spec 255 x); lia.
Qed.

(** One element of the buffer: the clamped sum of the two draws that
    feed it, with no wrap-around on the way. *)
Lemma pixel_arith (b n : Z) :
  (0 <= b <= 255)%Z -> (-24 <= n <= 23)%Z ->
  np.wrap_uint8 (Z.min 255 (Z.max (np.wrap_int64 (b + n)) 0)) = Spec.clamp (b + n).
Proof.
  intros Hb Hn.
  rewrite wrap_int64_id by (unfold np.INT64_MIN, np.INT64_MAX; lia).
  rewrite clip_is_clamp. apply wrap_uint8_id, clamp_range.
Qed.

Lemma img_array_length (arr : np.ndarray) :
  img_array (Z.of_nat W) (Z.of_nat H) entropy = Ok arr ->
  np.shape arr = [H; W; 3] /\ length (np.flat arr) = H * W * 3.
Proof.
  rewrite img_array_eq. intros [= <-]. cbn [np.shape np.flat]. split; [done|].
  rewrite !length_fmap, length_zip_with, length_thrice, !length_fmap, !length_seq.
  lia.
Qed.

Lemma img_array_flat_lookup (arr : np.ndarray) (k c : nat) :
  img_array (Z.of_nat W) (Z.of_nat H) entropy = Ok arr ->
  k < H * W -> c < 3 ->
  np.flat arr !! (k * 3 + c) =
    Some (Spec.clamp (np.bounded 0 256 (entropy k)
                      + np.bounded (-24) 24 (entropy (H * W + (k * 3 + c))))).
Proof.
  rewrite img_array_eq. intros [= <-] Hk Hc. cbn [np.flat].
  rewrite !list_lookup_fmap, lookup_zip_with, lookup_thrice by done.
  rewrite !list_lookup_fmap.
  rewrite (lookup_seq_lt 0 (H * W) k) by done.
  rewrite (lookup_seq_lt (H * W) (H * W * 3) (k * 3 + c)) by lia.
  cbn [fmap option_fmap option_map mbind option_bind].
  f_equal. apply pixel_arith.
  - pose proof (bounded_range 0 256 (entropy k)). lia.
  - pose proof (bounded_range (-24) 24 (entropy (H * W + (k * 3 + c)))). lia.
Qed.

(** Indexing the buffer by row, column and channel. *)
Lemma img_array_getitem (arr : np.ndarray) (i j c : nat) :
  img_array (Z.of_nat W) (Z.of_nat H) entropy = Ok arr ->
  i < H -> j < W -> c < 3 ->
  np.getitem arr [i; j; c] =
    Some (Spec.white_noise (base_draw entropy W) (channel_draw entropy W H) i j c).
Proof.
  intros Harr Hi Hj Hc.
  destruct (img_array_length arr Harr) as [Hshape _].
  unfold np.getitem. rewrite Hshape. cbn [np.ravel].
  rewrite !decide_True by done. cbn [mbind option_bind].
  replace ((0 * H + i) * W + j) with (i * W + j) by lia.
  rewrite (img_array_flat_lookup arr (i * W + j) c Harr) by (done || nia).
  replace (H * W + ((i * W + j) * 3 + c)) with (channel_index W H i j c)
    by (unfold channel_index; lia).
  reflexivity.
Qed.

Lemma img_array_getitem_inv (arr : np.ndarray) (idx : list nat) (v : Z) :
  img_array (Z.of_nat W) (Z.of_nat H) entropy = Ok arr ->
  np.getitem arr idx = Some v ->
  exists i j c, idx = [i; j; c] /\ i < H /\ j < W /\ c < 3.
Proof.
  intros Harr Hget.
  destruct (img_array_length arr Harr) as [Hshape _].
  unfold np.getitem in Hget. rewrite Hshape in Hget.
  destruct idx as [|i [|j [|c [|? ?]]]]; cbn in Hget;
    repeat case_decide; try discriminate.
  by exists i, j, c.
Qed.

End pixel_buffer.

(** A negative width or height is refused by the first draw. *)
Lemma img_array_negative (width height : Z) (entropy : nat -> Z) :
  (width < 0 \/ height < 0)%Z -> img_array width height entropy = Raise ValueError.
Proof.
  intros Hneg. unfold img_array, base_noise.
  rewrite integers_negative; [done|].
  rewrite Exists_exists. destruct Hneg.
  - exists width. split; [set_solver|done].
  - exists height. split; [set_solver|done].
Qed.

(** ** The generated image *)

Lemma save_format_png (fp : string) : Image.save_format fp (Some "PNG") = Ok "PNG".
Proof.
  unfold Image.save_format. cbn [mbind result_bind].
  change (upper "PNG") with "PNG".
  rewrite decide_True; [done|]. unfold Image.SAVE. set_solver.
Qed.

Lemma save_png (image : Image.t) (fp : string) (w : World) :
  Image.save image fp (Some "PNG") w =
    write_file fp {| file_format := "PNG";
                     file_image_mode := Image.mode image;
                     file_image_size := Image.im_size image;
                     file_samples := Image.tobytes image |} w.
Proof.
  unfold Image.save. rewrite save_format_png. reflexivity.
Qed.

(** A small run: a 2 x 2 image from a linear congruential bit stream, a
    negative height, and an empty image. *)
Example generate_white_noise_2x2 :
  generate_white_noise 2 2 (fun k => Z.of_nat k * 37 + 11)%Z =
    Ok {| Image.mode := "RGB"; Image.im_size := (2, 2);
          Image.tobytes := [2; 0; 28; 54; 43; 32; 106; 95; 84; 110; 99; 136]%Z |}.
Proof. reflexivity. Qed.

Example generate_white_noise_negative :
  generate_white_noise 2 (-1) zero_entropy = Raise ValueError.
Proof. reflexivity. Qed.

Example stack_axis_1 :
  np.stack [ {| np.shape := [2; 2]; np.flat := [1; 2; 3; 4]%Z |};
             {| np.shape := [2; 2]; np.flat := [5; 6; 7; 8]%Z |} ] 1 =
    Ok {| np.shape := [2; 2; 2]; np.flat := [1; 2; 5; 6; 3; 4; 7; 8]%Z |}.
Proof. reflexivity. Qed.

Lemma generate_white_noise_eq (W H : nat) (entropy : nat -> Z) (arr : np.ndarray) :
  img_array (Z.of_nat W) (Z.of_nat H) entropy = Ok arr ->
  generate_white_noise (Z.of_nat W) (Z.of_nat H) entropy =
    Ok {| Image.mode := "RGB"; Image.im_size := (W, H);
          Image.tobytes := np.flat arr |}.
Proof.
  intros Harr. unfold generate_white_noise. rewrite Harr.
  cbn [mbind result_bind]. unfold Image.fromarray.
  destruct (img_array_length W H entropy arr Harr) as [-> _].
  reflexivity.
Qed.

(** C1. [generate_white_noise(width, height)] is the specification's
    algorithm: the buffer has, at row [i], column [j], channel [c], the
    base draw of the pixel (a), the same for the three channels (b), plus
    the channel's own secondary draw (c), clamped to [0, 255] (d); the
    buffer becomes an RGB image of size (width, height), which [save] with
    format PNG writes as a PNG file (e). *)
Theorem generate_white_noise_follows_spec (W H : nat) (entropy : nat -> Z) :
  exists arr image,
    img_array (Z.of_nat W) (Z.of_nat H) entropy = Ok arr /\
    np.shape arr = [H; W; 3] /\
    length (np.flat arr) = H * W * 3 /\
    (forall i j c, i < H -> j < W -> c < 3 ->
       np.getitem arr [i; j; c] =
         Some (Spec.white_noise (base_draw entropy W)
                                (channel_draw entropy W H) i j c)) /\
    generate_white_noise (Z.of_nat W) (Z.of_nat H) entropy = Ok image /\
    Image.mode image = "RGB" /\
    Image.im_size image = (W, H) /\
    Image.tobytes image = np.flat arr /\
    (forall fp w, can_open w fp = true ->
       exists w', Image.save image fp (Some "PNG") w = (Ok (), w') /\
         files w' !! fp = Some {| file_format := "PNG";
                                  file_image_mode := "RGB";
                                  file_image_size := (W, H);
                                  file_samples := np.flat arr |}).
Proof.
  destruct (img_array (Z.of_nat W) (Z.of_nat H) entropy) as [arr|e] eqn:Harr;
    [|by rewrite img_array_eq in Harr].
  exists arr. eexists.
  destruct (img_array_length W H entropy arr Harr) as [Hshape Hlen].
  split_and!; try done.
  - intros i j c Hi Hj Hc. by apply img_array_getitem.
  - by apply generate_white_noise_eq.
  - done.
  - done.
  - done.
  - intros fp w Hopen. rewrite save_png. unfold write_file. rewrite Hopen.
    eexists. split; [done|]. cbn. by rewrite lookup_insert_eq.
Qed.

(** C2. The pixel buffer has shape (height, width, 3) and every element of
    the final, clamped and converted buffer is an integer in [0, 255]. *)
Theorem img_array_shape_and_range (W H : nat) (entropy : nat -> Z) :
  exists arr,
    img_array (Z.of_nat W) (Z.of_nat H) entropy = Ok arr /\
    np.shape arr = [H; W; 3] /\
    length (np.flat arr) = H * W * 3 /\
    Forall (fun v => 0 <= v <= 255)%Z (np.flat arr) /\
    (forall i j c, i < H -> j < W -> c < 3 ->
       exists v, np.getitem arr [i; j; c] = Some v /\ (0 <= v <= 255)%Z).
Proof.
  destruct (img_array (Z.of_nat W) (Z.of_nat H) entropy) as [arr|e] eqn:Harr;
    [|by rewrite img_array_eq in Harr].
  exists arr.
  destruct (img_array_length W H entropy arr Harr) as [Hshape Hlen].
  split_and!; try done.
  - rewrite img_array_eq in Harr. injection Harr as <-. cbn [np.flat].
    apply Forall_fmap, Forall_forall. intros x _. cbn.
    unfold np.wrap_uint8. pose proof (Z.mod_pos_bound x 256). lia.
  - intros i j c Hi Hj Hc. eexists. split; [by apply img_array_getitem|].
    apply clamp_range.
Qed.

(** ** Ranges of the two noise fields *)

Lemma Forall_bounded (low high : Z) (f : nat -> Z) (l : list nat) :
  (low < high)%Z ->
  Forall (fun v => low <= v <= high - 1)%Z ((fun k => np.bounded low high (f k)) <$> l).
Proof.
  intros Hlt. apply Forall_fmap, Forall_forall. intros k _. cbn.
  pose proof (bounded_range low high (f k) Hlt). lia.
Qed.

(** C10. Every value of the base field lies in [0, 255] and every value of
    the secondary noise in [-24, 23]: the upper bound 24 of the draw is
    exclusive, so a channel can go down by 24 and up by at most 23.  Both
    ends of both ranges are reached by some draw. *)
Theorem noise_ranges (W H : nat) (rng : np.Generator) :
  exists base rng1 noise rng2,
    base_noise (Z.of_nat W) (Z.of_nat H) rng = Ok (base, rng1) /\
    Forall (fun v => 0 <= v <= 255)%Z (np.flat base) /\
    channel_noise (Z.of_nat W) (Z.of_nat H) rng1 = Ok (noise, rng2) /\
    Forall (fun v => -24 <= v <= 23)%Z (np.flat noise) /\
    np.bounded 0 256 0 = 0%Z /\
    np.bounded 0 256 255 = 255%Z /\
    np.bounded (- CHANNEL_NOISE) CHANNEL_NOISE 0 = (-24)%Z /\
    np.bounded (- CHANNEL_NOISE) CHANNEL_NOISE 47 = 23%Z /\
    (forall raw, np.bounded (- CHANNEL_NOISE) CHANNEL_NOISE raw <> 24%Z).
Proof.
  unfold base_noise, channel_noise, CHANNEL_NOISE.
  change [Z.of_nat H; Z.of_nat W] with (Z.of_nat <$> [H; W]).
  change [Z.of_nat H; Z.of_nat W; 3%Z] with (Z.of_nat <$> [H; W; 3]).
  rewrite integers_ok by (unfold np.INT64_MIN, np.INT64_MAX; lia).
  do 2 eexists.
  rewrite integers_ok by (unfold np.INT64_MIN, np.INT64_MAX; lia).
  do 2 eexists.
  split_and!; try reflexivity.
  - apply (Forall_bounded 0 256). lia.
  - apply (Forall_bounded (-24) 24). lia.
  - intros raw.
    match goal with
    | |- np.bounded ?a ?b _ <> _ => pose proof (bounded_range a b raw)
    end. lia.
Qed.

(** ** The three channels of one pixel *)

Lemma clamp_lipschitz (x y : Z) :
  (Z.abs (Spec.clamp x - Spec.clamp y) <= Z.abs (x - y))%Z.
Proof.
  unfold Spec.clamp.
  destruct (Z.ltb_spec x 0), (Z.ltb_spec 255 x),
           (Z.ltb_spec y 0), (Z.ltb_spec 255 y); lia.
Qed.

(** C9. Any two channel values of one pixel of the final image differ by
    at most 47: they share the base value, each perturbation lies in
    [-24, 23], and clamping does not increase a difference. *)
Theorem channels_differ_by_at_most_47
    (W H : nat) (entropy : nat -> Z) (arr : np.ndarray)
    (i j c1 c2 : nat) (v1 v2 : Z) :
  img_array (Z.of_nat W) (Z.of_nat H) entropy = Ok arr ->
  np.getitem arr [i; j; c1] = Some v1 ->
  np.getitem arr [i; j; c2] = Some v2 ->
  (Z.abs (v1 - v2) <= 47)%Z.
Proof.
  intros Harr H1 H2.
  destruct (img_array_getitem_inv W H entropy arr _ _ Harr H1)
    as (? & ? & ? & [= <- <- <-] & Hi & Hj & Hc1).
  destruct (img_array_getitem_inv W H entropy arr _ _ Harr H2)
    as (? & ? & ? & [= _ _ <-] & _ & _ & Hc2).
  rewrite (img_array_getitem W H entropy arr i j c1 Harr) in H1 by done.
  rewrite (img_array_getitem W H entropy arr i j c2 Harr) in H2 by done.
  injection H1 as <-. injection H2 as <-.
  unfold Spec.white_noise, Spec.perturb, Spec.replicate.
  etrans; [apply clamp_lipschitz|].
  pose proof (bounded_range (- CHANNEL_NOISE) CHANNEL_NOISE
                (entropy (channel_index W H i j c1))).
  pose proof (bounded_range (- CHANNEL_NOISE) CHANNEL_NOISE
                (entropy (channel_index W H i j c2))).
  unfold channel_draw, CHANNEL_NOISE in *. lia.
Qed.

(** The bound 47 is reached. *)
Lemma channels_differ_by_at_most_47_witness :
  img_array (Z.of_nat 1) (Z.of_nat 1) extreme_entropy
    = Ok {| np.shape := [1; 1; 3]; np.flat := [76; 123; 76]%Z |} /\
  (Z.abs (76 - 123) <= 47)%Z.
Proof.
  split; [reflexivity|].
  apply (channels_differ_by_at_most_47 1 1 extreme_entropy
           {| np.shape := [1; 1; 3]; np.flat := [76; 123; 76]%Z |} 0 0 0 1);
    reflexivity.
Defined.

(** ** Which draws a channel value depends on *)

Lemma channel_value_eq (W H : nat) (entropy : nat -> Z) (i j c : nat) :
  i < H -> j < W -> c < 3 ->
  channel_value W H entropy i j c =
    Some (Spec.white_noise (base_draw entropy W) (channel_draw entropy W H) i j c).
Proof.
  intros Hi Hj Hc. unfold channel_value.
  destruct (img_array (Z.of_nat W) (Z.of_nat H) entropy) as [arr|e] eqn:Harr;
    [|by rewrite img_array_eq in Harr].
  by apply img_array_getitem.
Qed.

Lemma base_index_inj (W i j i' j' : nat) :
  j < W -> j' < W -> base_index W i j = base_index W i' j' -> i = i' /\ j = j'.
Proof.
  unfold base_index. intros Hj Hj' Heq.
  destruct (Nat.lt_trichotomy i i') as [Hlt|[->|Hlt]]; [nia|lia|nia].
Qed.

Lemma base_index_lt (W H i j : nat) : i < H -> j < W -> base_index W i j < H * W.
Proof. unfold base_index. nia. Qed.

(** C3, as stated, fails: in a 1 x 1 image the base draw (draw 0) is a
    draw used for the green channel, and changing it alone changes the red
    channel from 0 to 76. *)
Lemma independent_of_other_draws_fails : ~ independent_of_other_draws.
Proof.
  intros Hind.
  specialize (Hind 1 1 0 0 0 0 0 1 zero_entropy base_changed_entropy).
  assert (Hne : channel_value 1 1 zero_entropy 0 0 0
                <> channel_value 1 1 base_changed_entropy 0 0 0)
    by (vm_compute; discriminate).
  apply Hne, Hind; try lia.
  - discriminate.
  - intros [|n] Hn; [|reflexivity].
    exfalso. apply Hn. unfold draws_used, base_index. set_solver.
Qed.

(** C3, amended.  A channel value is determined by the two draws used for
    it, the base draw of its pixel (which the three channels of the pixel
    share) and the channel's own secondary draw; and no draw used for any
    channel of another pixel is one of these two. *)
Theorem channel_value_depends_on_its_pixel
    (W H i j c : nat) :
  i < H -> j < W -> c < 3 ->
  (forall e1 e2 : nat -> Z,
     (forall n, n ∈ draws_used W H i j c -> e1 n = e2 n) ->
     channel_value W H e1 i j c = channel_value W H e2 i j c) /\
  (forall i' j' c' n,
     i' < H -> j' < W -> c' < 3 -> (i', j') <> (i, j) ->
     n ∈ draws_used W H i' j' c' -> n ∉ draws_used W H i j c).
Proof.
  intros Hi Hj Hc. split.
  - intros e1 e2 Hagree.
    rewrite !channel_value_eq by done.
    unfold Spec.white_noise, Spec.perturb, Spec.replicate, base_draw, channel_draw.
    rewrite (Hagree (base_index W i j)) by (unfold draws_used; set_solver).
    rewrite (Hagree (channel_index W H i j c)) by (unfold draws_used; set_solver).
    reflexivity.
  - intros i' j' c' n Hi' Hj' Hc' Hne Hin Hin'.
    pose proof (base_index_lt W H i j Hi Hj) as Hb.
    pose proof (base_index_lt W H i' j' Hi' Hj') as Hb'.
    assert (Hneq : base_index W i' j' <> base_index W i j).
    { intros Heq. apply Hne.
      destruct (base_index_inj W i' j' i j Hj' Hj Heq) as [-> ->]. done. }
    unfold draws_used, channel_index in Hin, Hin'.
    fold (base_index W i j) in Hin'. fold (base_index W i' j') in Hin.
    apply list_elem_of_In in Hin, Hin'. cbn in Hin, Hin'. lia.
Qed.

Lemma channel_value_depends_on_its_pixel_witness :
  (0 < 1 /\ 0 < 2 /\ 0 < 3) /\
  (forall e1 e2 : nat -> Z,
     (forall n, n ∈ draws_used 2 1 0 0 0 -> e1 n = e2 n) ->
     channel_value 2 1 e1 0 0 0 = channel_value 2 1 e2 0 0 0) /\
  (forall i' j' c' n,
     i' < 1 -> j' < 2 -> c' < 3 -> (i', j') <> (0, 0) ->
     n ∈ draws_used 2 1 i' j' c' -> n ∉ draws_used 2 1 0 0 0).
Proof.
  split; [lia|].
  apply (channel_value_depends_on_its_pixel 2 1 0 0 0); lia.
Defined.

(** ** A run of [main] *)

Lemma generating_line_eq :
  "Generating " +:+ pretty IMAGE_WIDTH +:+ "x" +:+ pretty IMAGE_HEIGHT
    +:+ " white noise image..." = generating_line.
Proof. reflexivity. Qed.

Lemma main_rejected (argv : list arg) (entropy : nat -> Z) (w : World) (e : exn) :
  parse_args argv = Raise e ->
  main argv entropy w =
    (Raise e,
     if decide (HelpOption ∈ argv)
     then with_stdout w (stdout w ++ [help_message w]) else w).
Proof.
  intros Hparse. unfold main, mbind, IO_bind, parse_args_io.
  case_decide; by rewrite Hparse.
Qed.

Lemma generate_fixed_size (entropy : nat -> Z) :
  exists arr,
    img_array IMAGE_WIDTH IMAGE_HEIGHT entropy = Ok arr /\
    np.shape arr = [128; 128; 3] /\
    length (np.flat arr) = 128 * 128 * 3 /\
    generate_white_noise IMAGE_WIDTH IMAGE_HEIGHT entropy =
      Ok {| Image.mode := "RGB"; Image.im_size := (128, 128);
            Image.tobytes := np.flat arr |}.
Proof.
  change IMAGE_WIDTH with (Z.of_nat 128). change IMAGE_HEIGHT with (Z.of_nat 128).
  destruct (img_array (Z.of_nat 128) (Z.of_nat 128) entropy) as [arr|e] eqn:Harr;
    [|by rewrite img_array_eq in Harr].
  exists arr.
  destruct (img_array_length 128 128 entropy arr Harr) as [Hshape Hlen].
  split_and!; try done. by apply generate_white_noise_eq.
Qed.

Lemma parse_args_ok_no_help (argv : list arg) (args : Namespace) :
  parse_args argv = Ok args -> HelpOption ∉ argv.
Proof. unfold parse_args. by case_decide. Qed.

Lemma main_parsed (argv : list arg) (args : Namespace) (entropy : nat -> Z)
    (w : World) (image : Image.t) :
  parse_args argv = Ok args ->
  generate_white_noise IMAGE_WIDTH IMAGE_HEIGHT entropy = Ok image ->
  main argv entropy w =
    if can_open w (output args) then
      (Ok (),
       {| files := <[output args :=
                       {| file_format := "PNG";
                          file_image_mode := Image.mode image;
                          file_image_size := Image.im_size image;
                          file_samples := Image.tobytes image |}]> (files w);
          can_open := can_open w;
          fails_after_open := fails_after_open w;
          stdout := (stdout w ++ [generating_line])
                      ++ ["Image saved to: " +:+ output args];
          help_message := help_message w |})
    else if fails_after_open w (output args) then
      (Raise OSError,
       {| files := delete (output args) (files w);
          can_open := can_open w;
          fails_after_open := fails_after_open w;
          stdout := stdout w ++ [generating_line];
          help_message := help_message w |})
    else
      (Raise OSError,
       {| files := files w; can_open := can_open w;
          fails_after_open := fails_after_open w;
          stdout := stdout w ++ [generating_line];
          help_message := help_message w |}).
Proof.
  intros Hparse Hgen. unfold main. rewrite generating_line_eq.
  unfold mbind, IO_bind, lift, parse_args_io.
  rewrite decide_False by (by eapply parse_args_ok_no_help).
  rewrite Hparse. cbn [print].
  rewrite Hgen, save_png. unfold write_file, with_files, with_stdout.
  cbn [can_open fails_after_open files stdout help_message].
  destruct (can_open w (output args)); [reflexivity|].
  destruct (fails_after_open w (output args)); reflexivity.
Qed.

Lemma parse_args_cases (argv : list arg) :
  (exists args, parse_args argv = Ok args) \/
  (exists code, parse_args argv = Raise (SystemExit code)).
Proof.
  unfold parse_args. case_decide; [right; eauto|].
  destruct (positionals argv) as [|o [|? ?]], (unknown_options argv); eauto.
Qed.

Lemma parse_args_ok_inv (argv : list arg) (args : Namespace) :
  parse_args argv = Ok args ->
  positionals argv = [output args] /\ unknown_options argv = [] /\ HelpOption ∉ argv.
Proof.
  unfold parse_args. case_decide; [done|].
  destruct (positionals argv) as [|o [|? ?]], (unknown_options argv); try done.
  by intros [= <-].
Qed.

(** Runs that stop at the parser: the help option prints the help message
    and exits with status 0, a missing argument exits with status 2; no
    file changes in either. *)
Example main_help :
  main [Positional "noise.png"; HelpOption] zero_entropy stale_world =
    (Raise (SystemExit 0),
     with_stdout stale_world ["usage: gen_texture.py [-h] output"]).
Proof. reflexivity. Qed.

Example main_missing_argument :
  main [] zero_entropy stale_world = (Raise (SystemExit 2), stale_world).
Proof. reflexivity. Qed.

(** A run that cannot open its output file: the announcement is printed,
    [save] raises OSError and the files are as before. *)
Example main_cannot_open :
  main [Positional "noise.png"] zero_entropy closed_world =
    (Raise OSError, with_stdout closed_world [generating_line]).
Proof. reflexivity. Qed.

(** C4. Whatever the command line and the random draws, the image a run
    generates is 128 pixels wide and 128 pixels high.  A run whose
    arguments parse announces a 128x128 image, completes whenever the
    output path can be written, and a completed run has left at the output
    path the 128 x 128 image generated from the draws.  A run whose
    arguments do not parse ends with the parser's exit, writes no file and
    prints at most the help message. *)
Theorem main_image_is_128_by_128 (argv : list arg) (entropy : nat -> Z) (w : World) :
  exists image,
    generate_white_noise IMAGE_WIDTH IMAGE_HEIGHT entropy = Ok image /\
    Image.im_size image = (128, 128) /\
    length (Image.tobytes image) = 128 * 128 * 3 /\
    match parse_args argv with
    | Ok args =>
        (exists rest,
           stdout (main argv entropy w).2 = stdout w ++ generating_line :: rest) /\
        (can_open w (output args) = true -> (main argv entropy w).1 = Ok ()) /\
        ((main argv entropy w).1 = Ok () ->
         files (main argv entropy w).2 !! output args =
           Some {| file_format := "PNG";
                   file_image_mode := "RGB";
                   file_image_size := (128, 128);
                   file_samples := Image.tobytes image |})
    | Raise e =>
        (main argv entropy w).1 = Raise e /\
        files (main argv entropy w).2 = files w /\
        stdout (main argv entropy w).2 =
          (if decide (HelpOption ∈ argv)
           then stdout w ++ [help_message w] else stdout w)
    end.
Proof.
  destruct (generate_fixed_size entropy) as (arr & _ & _ & Hlen & Hgen).
  eexists. split; [exact Hgen|]. split; [done|]. split; [exact Hlen|].
  destruct (parse_args argv) as [args|e] eqn:Hparse.
  - rewrite (main_parsed argv args entropy w _ Hparse Hgen).
    destruct (can_open w (output args)); [|destruct (fails_after_open w (output args))];
      cbn [fst snd stdout files Image.mode Image.im_size Image.tobytes].
    + split; [|split; [done|]].
      * eexists. by rewrite <- app_assoc.
      * intros _. by rewrite lookup_insert_eq.
    + split; [by eexists|]. split; discriminate.
    + split; [by eexists|]. split; discriminate.
  - rewrite (main_rejected argv entropy w _ Hparse).
    case_decide; done.
Qed.



(** Without the explicit format, [save] would go by the extension. *)
Example save_format_by_extension :
  Image.save_format "noise.jpg" None = Ok "JPEG" /\
  Image.save_format "noise.PNG" None = Ok "PNG" /\
  Image.save_format "noise" None = Raise ValueError /\
  Image.save_format "noise.jpg" (Some "PNG") = Ok "PNG".
Proof. by vm_compute. Qed.




(** C8. A run changes nothing on disk but the named output file: every
    other path holds after the run what it held before, and which paths
    can be opened is unchanged.  The pixel buffer is not part of the world
    that outlives the run. *)
Theorem main_frame (argv : list arg) (entropy : nat -> Z) (w : World) (p : string) :
  (forall args, parse_args argv = Ok args -> p <> output args) ->
  files (main argv entropy w).2 !! p = files w !! p /\
  can_open (main argv entropy w).2 = can_open w.
Proof.
  intros Hother.
  destruct (parse_args_cases argv) as [[args Hparse]|[code Hparse]].
  - destruct (generate_fixed_size entropy) as (arr & _ & _ & _ & Hgen).
    rewrite (main_parsed argv args entropy w _ Hparse Hgen).
    destruct (can_open w (output args));
      [|destruct (fails_after_open w (output args))];
      cbn [snd files can_open]; (split; [|done]); [| |done].
    + apply lookup_insert_ne. intros Heq. by apply (Hother args Hparse).
    + apply lookup_delete_ne. intros Heq. by apply (Hother args Hparse).
  - rewrite (main_rejected argv entropy w _ Hparse). by case_decide.
Qed.

Lemma main_frame_witness :
  (forall args, parse_args [Positional "a.png"] = Ok args -> "b.png" <> output args) /\
  files (main [Positional "a.png"] zero_entropy empty_world).2 !! "b.png"
    = files empty_world !! "b.png" /\
  can_open (main [Positional "a.png"] zero_entropy empty_world).2
    = can_open empty_world.
Proof.
  assert (Hother : forall args,
            parse_args [Positional "a.png"] = Ok args -> "b.png" <> output args)
    by (intros args [= <-]; discriminate).
  split; [exact Hother|].
  apply (main_frame [Positional "a.png"] zero_entropy empty_world "b.png" Hother).
Defined.

(** ** Further properties of [generate_white_noise] *)

(** X1. A negative width or height is refused: the first draw raises
    ValueError, no pixel buffer is produced and [generate_white_noise]
    raises the same error, whatever the other dimension and the draws. *)
Theorem negative_dimension_raises (width height : Z) (entropy : nat -> Z) :
  (width < 0 \/ height < 0)%Z ->
  img_array width height entropy = Raise ValueError /\
  generate_white_noise width height entropy = Raise ValueError.
Proof.
  intros Hneg. unfold generate_white_noise.
  by rewrite img_array_negative.
Qed.

Lemma negative_dimension_raises_witness :
  (128 < 0 \/ -1 < 0)%Z /\
  img_array 128 (-1) extreme_entropy = Raise ValueError /\
  generate_white_noise 128 (-1) extreme_entropy = Raise ValueError.
Proof.
  split; [lia|].
  apply (negative_dimension_raises 128 (-1) extreme_entropy). lia.
Defined.

(** X3. Every channel value stays within the noise amplitude of the base
    value of its pixel: at most 24 below it and at most 23 above it. *)
Theorem channel_within_noise_of_base
    (W H : nat) (entropy : nat -> Z) (i j c : nat) :
  i < H -> j < W -> c < 3 ->
  exists v,
    channel_value W H entropy i j c = Some v /\
    (base_draw entropy W i j - 24 <= v <= base_draw entropy W i j + 23)%Z.
Proof.
  intros Hi Hj Hc. eexists. split; [by apply channel_value_eq|].
  unfold Spec.white_noise, Spec.perturb, Spec.replicate, Spec.clamp.
  pose proof (bounded_range 0 256 (entropy (base_index W i j))).
  pose proof (bounded_range (- CHANNEL_NOISE) CHANNEL_NOISE
                (entropy (channel_index W H i j c))).
  unfold base_draw, channel_draw, CHANNEL_NOISE in *.
  repeat case_match; lia.
Qed.

Lemma channel_within_noise_of_base_witness :
  (0 < 1 /\ 0 < 1 /\ 1 < 3) /\
  exists v,
    channel_value 1 1 extreme_entropy 0 0 1 = Some v /\
    (base_draw extreme_entropy 1 0 0 - 24 <= v
       <= base_draw extreme_entropy 1 0 0 + 23)%Z.
Proof.
  split; [lia|].
  apply (channel_within_noise_of_base 1 1 extreme_entropy 0 0 1); lia.
Defined.

(** X4. Every sample value can occur at every position: for each channel
    of each pixel and each [v] in [0, 255] some bit stream gives the
    channel the value [v]. *)
Theorem every_sample_value_attainable (W H i j c : nat) (v : Z) :
  i < H -> j < W -> c < 3 -> (0 <= v <= 255)%Z ->
  exists entropy, channel_value W H entropy i j c = Some v.
Proof.
  intros Hi Hj Hc Hv.
  exists (fun k => if decide (k = base_index W i j) then v else 24%Z).
  rewrite channel_value_eq by done.
  unfold Spec.white_noise, Spec.perturb, Spec.replicate, base_draw, channel_draw.
  rewrite decide_True by done.
  pose proof (base_index_lt W H i j Hi Hj) as Hlt.
  rewrite decide_False by (unfold channel_index; fold (base_index W i j); lia).
  f_equal. unfold np.bounded, CHANNEL_NOISE, Spec.clamp.
  rewrite (Z.mod_small v) by lia.
  match goal with
  | |- context [(24 `mod` ?d)%Z] => change (24 `mod` d)%Z with 24%Z
  end.
  repeat case_match; lia.
Qed.

Lemma every_sample_value_attainable_witness :
  (1 < 2 /\ 2 < 3 /\ 2 < 3 /\ (0 <= 255 <= 255)%Z) /\
  exists entropy, channel_value 3 2 entropy 1 2 2 = Some 255%Z.
Proof.
  split; [lia|].
  apply (every_sample_value_attainable 3 2 1 2 2 255); lia.
Defined.

Lemma add_exact (l1 l2 : list Z) :
  Forall (fun x => 0 <= x <= 255)%Z l1 ->
  Forall (fun y => -24 <= y <= 23)%Z l2 ->
  zip_with (fun x y => np.wrap_int64 (x + y)) l1 l2 = zip_with Z.add l1 l2 /\
  Forall (fun v => -24 <= v <= 278)%Z (zip_with Z.add l1 l2).
Proof.
  intros H1. revert l2. induction H1 as [|x l1 Hx _ IH]; intros l2 H2.
  - by split.
  - destruct H2 as [|y l2 Hy H2]; [by split|].
    destruct (IH l2 H2) as [IHeq IHall]. cbn. split.
    + rewrite IHeq, wrap_int64_id; [done|].
      unfold np.INT64_MIN, np.INT64_MAX. lia.
    + constructor; [lia|done].
Qed.

Lemma Forall_thrice (P : Z -> Prop) (l : list Z) :
  Forall P l -> Forall P (l ≫= (fun x => [x; x; x])).
Proof. induction 1; cbn; repeat constructor; done. Qed.

(** X5. Nothing wraps around on the way to the pixel buffer: the int64
    sum of the stacked base field and the channel noise is the exact sum,
    every element of it lies in [-24, 278], and converting the clipped sum
    to uint8 changes no element. *)
Theorem sum_never_wraps (W H : nat) (entropy : nat -> Z) :
  exists base rng1 stacked noise rng2 sum,
    base_noise (Z.of_nat W) (Z.of_nat H) (np.default_rng entropy) = Ok (base, rng1) /\
    np.stack [base; base; base] 2 = Ok stacked /\
    channel_noise (Z.of_nat W) (Z.of_nat H) rng1 = Ok (noise, rng2) /\
    np.add stacked noise = Ok sum /\
    np.flat sum = zip_with Z.add (np.flat stacked) (np.flat noise) /\
    Forall (fun v => -24 <= v <= 278)%Z (np.flat sum) /\
    np.astype_uint8 (np.clip sum 0 255) = np.clip sum 0 255 /\
    img_array (Z.of_nat W) (Z.of_nat H) entropy = Ok (np.clip sum 0 255).
Proof.
  set (B := (fun k => np.bounded 0 256 (entropy k)) <$> seq 0 (H * W)).
  set (N := (fun k => np.bounded (-24) 24 (entropy k)) <$> seq (H * W) (H * W * 3)).
  assert (HB : Forall (fun x => 0 <= x <= 255)%Z B)
    by (apply (Forall_bounded 0 256); lia).
  assert (HN : Forall (fun y => -24 <= y <= 23)%Z N)
    by (apply (Forall_bounded (-24) 24); lia).
  destruct (add_exact _ _ (Forall_thrice _ _ HB) HN) as [Hexact Hrange].
  assert (Hp2 : np.product [H; W] = H * W) by (cbn; lia).
  assert (Hp3 : np.product [H; W; 3] = H * W * 3) by (cbn; lia).
  exists {| np.shape := [H; W]; np.flat := B |},
         {| np.bit_stream := entropy; np.consumed := H * W |},
         {| np.shape := [H; W; 3]; np.flat := B ≫= (fun x => [x; x; x]) |},
         {| np.shape := [H; W; 3]; np.flat := N |},
         {| np.bit_stream := entropy; np.consumed := H * W + H * W * 3 |},
         {| np.shape := [H; W; 3];
            np.flat := zip_with Z.add (B ≫= (fun x => [x; x; x])) N |}.
  assert (Hlossless :
    forall l : list Z, np.wrap_uint8 <$> ((fun x => Z.min 255 (Z.max x 0)) <$> l)
              = (fun x => Z.min 255 (Z.max x 0)) <$> l).
  { intros l. rewrite <- list_fmap_compose.
    apply Forall_fmap_ext_1, Forall_forall. intros x _. cbn.
    apply wrap_uint8_id. lia. }
  split_and!.
  - unfold base_noise.
    change [Z.of_nat H; Z.of_nat W] with (Z.of_nat <$> [H; W]).
    rewrite integers_ok by (unfold np.INT64_MIN, np.INT64_MAX; lia).
    cbn [np.default_rng np.bit_stream np.consumed]. by rewrite Hp2.
  - unfold np.stack. cbn [np.shape np.flat].
    rewrite decide_True by (repeat constructor).
    rewrite decide_True by (cbn; lia).
    cbn [take drop app length fmap list_fmap np.flat].
    change (np.product []) with 1. rewrite Hp2.
    replace (H * W) with (length B) at 1
      by (unfold B; by rewrite length_fmap, length_seq).
    by rewrite interleave_thrice.
  - unfold channel_noise, CHANNEL_NOISE.
    change [Z.of_nat H; Z.of_nat W; 3%Z] with (Z.of_nat <$> [H; W; 3]).
    rewrite integers_ok by (unfold np.INT64_MIN, np.INT64_MAX; lia).
    cbn [np.bit_stream np.consumed]. by rewrite Hp3.
  - unfold np.add. cbn [np.shape np.flat].
    rewrite decide_True by done. by rewrite Hexact.
  - done.
  - done.
  - unfold np.astype_uint8, np.clip. cbn [np.shape np.flat].
    by rewrite Hlossless.
  - rewrite img_array_eq. fold B N. rewrite Hexact, Hlossless. reflexivity.
Qed.

(** ** Further properties of [main] *)

(** X6. The parser accepts exactly the command lines that consist of one
    positional argument and nothing else, and that argument is the output
    path. *)
Theorem parse_args_accepts_iff (argv : list arg) (o : string) :
  parse_args argv = Ok {| output := o |} <-> argv = [Positional o].
Proof.
  split.
  - intros Hparse. apply parse_args_ok_inv in Hparse as (Hpos & Hunk & Hhelp).
    cbn [output] in Hpos.
    destruct argv as [|a [|b rest]].
    + discriminate.
    + destruct a; cbn in Hpos, Hunk; [by injection Hpos as ->| |discriminate].
      exfalso. apply Hhelp. by left.
    + exfalso. destruct a as [s| |s]; cbn in Hpos, Hunk.
      * destruct b as [t| |t]; cbn in Hpos, Hunk; [discriminate| |discriminate].
        apply Hhelp. right. by left.
      * apply Hhelp. by left.
      * discriminate.
  - intros ->. unfold parse_args. rewrite decide_False; [done|].
    intros Hin. apply list_elem_of_In in Hin. cbn in Hin.
    destruct Hin as [|[]]; discriminate.
Qed.





(** X9. The output file is overwritten without regard to what was there:
    whatever two worlds held at the output path, runs with the same draws
    leave the same file there. *)
Theorem main_overwrites (argv : list arg) (args : Namespace)
    (entropy : nat -> Z) (w1 w2 : World) :
  parse_args argv = Ok args ->
  can_open w1 (output args) = true ->
  can_open w2 (output args) = true ->
  is_Some (files (main argv entropy w1).2 !! output args) /\
  files (main argv entropy w1).2 !! output args =
  files (main argv entropy w2).2 !! output args.
Proof.
  intros Hparse Hopen1 Hopen2.
  destruct (generate_fixed_size entropy) as (arr & _ & _ & _ & Hgen).
  rewrite !(main_parsed argv args entropy _ _ Hparse Hgen), Hopen1, Hopen2.
  cbn [snd files]. rewrite !lookup_insert_eq. eauto.
Qed.

Lemma main_overwrites_witness :
  parse_args [Positional "noise.png"] = Ok {| output := "noise.png" |} /\
  can_open empty_world "noise.png" = true /\
  can_open stale_world "noise.png" = true /\
  is_Some (files (main [Positional "noise.png"] zero_entropy empty_world).2
             !! "noise.png") /\
  files (main [Positional "noise.png"] zero_entropy empty_world).2 !! "noise.png" =
  files (main [Positional "noise.png"] zero_entropy stale_world).2 !! "noise.png".
Proof.
  split; [reflexivity|]. split; [reflexivity|]. split; [reflexivity|].
  apply (main_overwrites [Positional "noise.png"] {| output := "noise.png" |}
           zero_entropy empty_world stale_world); reflexivity.
Defined.

(** X10. Running [main] again with the same command line and the same
    draws changes no file: the files after the second run are those after
    the first. *)
Theorem main_rerun_same_files (argv : list arg) (entropy : nat -> Z) (w : World) :
  files (main argv entropy (main argv entropy w).2).2 =
  files (main argv entropy w).2.
Proof.
  destruct (parse_args_cases argv) as [[args Hparse]|[code Hparse]].
  - destruct (generate_fixed_size entropy) as (arr & _ & _ & _ & Hgen).
    rewrite !(main_parsed argv args entropy _ _ Hparse Hgen).
    destruct (can_open w (output args)) eqn:Hopen;
      [|destruct (fails_after_open w (output args)) eqn:Hfrag];
      cbn [snd files can_open fails_after_open];
      rewrite Hopen, ?Hfrag; cbn [snd files].
    + by rewrite insert_insert_eq.
    + by rewrite delete_delete_eq.
    + done.
  - rewrite !(main_rejected argv entropy _ _ Hparse).
    case_decide; done.
Qed.
